(** * PipeDispatcherImpl.skip0: skipping bytes of a pipe by reading them away

    A shallow embedding of
    [src/java.base/linux/native/libnio/ch/PipeDispatcherImpl.c]
    and the properties of its single function. *)

From Stdlib Require Import ZArith Bool String List Lia.
Import ListNotations.
Local Open Scope Z_scope.

(** ** Machine integers

    [jlong] is a signed 64-bit integer; on Linux/LP64 [long] and [ssize_t]
    have the same width, so the casts [(long) n] and [(ssize_t) remaining]
    do not change the value. *)

Definition jlong_min : Z := - 2 ^ 63.
Definition jlong_max : Z := 2 ^ 63 - 1.

Definition jlong_wrap (z : Z) : Z := (z + 2 ^ 63) mod 2 ^ 64 - 2 ^ 63.

Definition jlong_add (a b : Z) : Z := jlong_wrap (a + b).
Definition jlong_sub (a b : Z) : Z := jlong_wrap (a - b).

(** ** Constants of the platform headers *)

(** [static const ssize_t MAX_SKIP_BUFFER_SIZE = 4096;] *)
Definition MAX_SKIP_BUFFER_SIZE : Z := 4096.

(** Linux [errno] numbers ([asm-generic/errno-base.h], [errno.h]);
    [EWOULDBLOCK] is defined there as [EAGAIN]. *)
Definition EINTR : Z := 4.
Definition EAGAIN : Z := 11.
Definition EWOULDBLOCK : Z := EAGAIN.

(** ** The descriptor

    The kernel side of a file descriptor: a state and the behaviour of
    [read(fd, buf, count)] on it.  [sys_read k count] gives the return value
    of the call, the [errno] it leaves when that value is negative, and the
    next state.  The contents of the buffer are never looked at by the
    code, so they are not part of the model.  [sys_read_le] is the contract
    of the system call: it never returns more than the number of bytes it
    was asked for. *)

Record descriptor : Type := mkDescriptor {
  fd_state : Type;
  sys_read : fd_state -> Z -> Z * Z * fd_state;
  sys_read_le : forall k count, 0 <= count -> fst (fst (sys_read k count)) <= count
}.

(** ** The Java exception left pending in the JNI environment *)

Record throwable : Type := mkThrowable {
  exc_class : string;
  exc_errno : Z;
  exc_detail : string
}.

(** One [read] call as the process sees it: the count requested and the
    value returned. *)
Record syscall : Type := mkSyscall {
  sc_count : Z;
  sc_ret : Z
}.

Section Skip.

Variable D : descriptor.

(** [IOS_INTERRUPTED] and [IOS_THROWN] come from [nio.h], which is not among
    the sources; they are taken as parameters. *)
Variables IOS_INTERRUPTED IOS_THROWN : Z.

(** What the function can touch: the descriptor behind [fdo], [errno],
    the pending exception of [env], and the list of [read] calls issued so
    far (oldest first). *)
Record world : Type := mkWorld {
  w_fd : fd_state D;
  w_errno : Z;
  w_pending : option throwable;
  w_trace : list syscall
}.

(** [read(fd, buf, count)] *)
Definition read (w : world) (count : Z) : Z * world :=
  let '(nr, e, k) := sys_read D (w_fd w) count in
  (nr, {| w_fd := k;
          w_errno := if nr <? 0 then e else w_errno w;
          w_pending := w_pending w;
          w_trace := w_trace w ++ [mkSyscall count nr] |}).

(** Modelled from the spec: [JNU_ThrowIOExceptionWithLastError] lives in
    [jni_util], which is not among the sources.  The spec says that it
    signals "a fatal I/O failure carrying the OS error text" through "the
    runtime's exception-raising channel": an [IOException] becomes pending,
    carrying the last OS error (the text is a function of [errno]) and the
    default detail given by the caller. *)
Definition JNU_ThrowIOExceptionWithLastError (w : world) (defaultDetail : string)
  : world :=
  {| w_fd := w_fd w;
     w_errno := w_errno w;
     w_pending := Some (mkThrowable "java/io/IOException" (w_errno w) defaultDetail);
     w_trace := w_trace w |}.

(** What one pass through the body of [for (;;)] ends in: [continue] with
    the new counter, or [return] of a value. *)
Inductive iteration : Type :=
| Continue (tn : Z) (w : world)
| Return (r : Z) (w : world).

(** [const ssize_t count = remaining < bs ? (ssize_t) remaining : bs;] *)
Definition request (n bs tn : Z) : Z :=
  let remaining := jlong_sub n tn in
  if remaining <? bs then remaining else bs.

(** The body of the loop, lines 48-65. *)
Definition loop_body (n bs tn : Z) (w : world) : iteration :=
  let count := request n bs tn in
  let '(nr, w) := read w count in
  if nr <? 0 then
    if (w_errno w =? EAGAIN) || (w_errno w =? EWOULDBLOCK) then
      Return tn w
    else if w_errno w =? EINTR then
      Return IOS_INTERRUPTED w
    else
      Return IOS_THROWN (JNU_ThrowIOExceptionWithLastError w "read")
  else
    let tn := if 0 <? nr then jlong_add tn nr else tn in
    if nr =? bs then Continue tn w else Return tn w.

(** [for (;;) { ... }]: [None] when the fuel runs out before a [return]. *)
Fixpoint skip_loop (fuel : nat) (n bs tn : Z) (w : world) : option (Z * world) :=
  match fuel with
  | O => None
  | S fuel =>
      match loop_body n bs tn w with
      | Continue tn w => skip_loop fuel n bs tn w
      | Return r w => Some (r, w)
      end
  end.

(** [const long bs = n < MAX_SKIP_BUFFER_SIZE ? (long) n : MAX_SKIP_BUFFER_SIZE;] *)
Definition buffer_size (n : Z) : Z :=
  if n <? MAX_SKIP_BUFFER_SIZE then n else MAX_SKIP_BUFFER_SIZE.

(** The function.  [fdval(env, fdo)] only fetches the integer handle out of
    the Java object; the descriptor it names is [w_fd]. *)
Definition Java_sun_nio_ch_PipeDispatcherImpl_skip0
  (fuel : nat) (w : world) (n : Z) : option (Z * world) :=
  if n <? 1 then Some (0, w)
  else
    let bs := buffer_size n in
    let tn := 0 in
    skip_loop fuel n bs tn w.

(** The state at the head of iteration number [j] (counted from 0) of a loop
    entered with counter [tn] in world [w]; [None] when the loop has returned
    before. *)
Fixpoint loop_iter (j : nat) (n bs tn : Z) (w : world) : option (Z * world) :=
  match j with
  | O => Some (tn, w)
  | S j =>
      match loop_body n bs tn w with
      | Continue tn w => loop_iter j n bs tn w
      | Return _ _ => None
      end
  end.

(** The [read] calls issued between two worlds. *)
Definition issued (w w' : world) (l : list syscall) : Prop :=
  w_trace w' = w_trace w ++ l.

(** The world an iteration leaves. *)
Definition iteration_world (it : iteration) : world :=
  match it with
  | Continue _ w => w
  | Return _ w => w
  end.

(** The [read] of [count] bytes in world [w] fails and leaves [e] in [errno]. *)
Definition read_fails (w : world) (count e : Z) : Prop :=
  fst (read w count) < 0 /\ w_errno (snd (read w count)) = e.

(** A descriptor whose bytes are all there at once: in every state that is
    [ready], [avail] bytes are left before end-of-stream, and a [read] returns
    as many of them as it is asked for, never fewer while some remain, and
    never fails. *)
Definition never_short (avail : fd_state D -> Z) (ready : fd_state D -> Prop) : Prop :=
  forall (s : fd_state D) (count : Z),
    ready s -> 0 <= count ->
    0 <= avail s /\
    fst (fst (sys_read D s count)) = Z.min count (avail s) /\
    ready (snd (sys_read D s count)) /\
    avail (snd (sys_read D s count)) = avail s - Z.min count (avail s).

End Skip.

Arguments mkWorld {D}.
Arguments w_fd {D}.
Arguments w_errno {D}.
Arguments w_pending {D}.
Arguments w_trace {D}.
Arguments Continue {D}.
Arguments Return {D}.
Arguments issued {D}.
Arguments iteration_world {D}.
Arguments read {D}.
Arguments read_fails {D}.
Arguments never_short {D}.
Arguments JNU_ThrowIOExceptionWithLastError {D}.

(** ** A pipe

    A pipe whose data arrive in bursts: the state lists what is still to
    happen at the read end, and the write end is closed after the last
    event.  A [read] that meets a burst returns what the burst holds, up to
    the count asked for, and leaves the rest of that burst in the pipe; one
    that meets a fault fails with that [errno]; on the empty pipe it
    returns 0, end-of-stream. *)

Inductive event : Type :=
| Burst (c : positive)
| Fault (e : Z).

Definition pipe_read (p : list event) (count : Z) : Z * Z * list event :=
  match p with
  | [] => (0, 0, [])
  | Burst c :: rest =>
      let nr := Z.min count (Z.pos c) in
      (nr, 0, if nr <? Z.pos c then Burst (Z.to_pos (Z.pos c - nr)) :: rest else rest)
  | Fault e :: rest => (-1, e, rest)
  end.

(** The number of bytes a pipe delivers before end-of-stream. *)
Definition pipe_bytes (p : list event) : Z :=
  fold_right (fun ev s => match ev with Burst c => Z.pos c + s | Fault _ => s end) 0 p.

(** No [read] on the pipe fails. *)
Definition pipe_faultless (p : list event) : bool :=
  forallb (fun ev => match ev with Burst _ => true | Fault _ => false end) p.

(** A pipe with [k] bytes in it, all there at once. *)
Definition pipe_holding (k : Z) : list event :=
  match k with
  | Z.pos c => [Burst c]
  | _ => []
  end.

(** All the bytes of the pipe are in it already. *)
Definition pipe_ready (p : list event) : Prop :=
  p = pipe_holding (pipe_bytes p).

Definition pipe : descriptor.
Proof.
  refine (mkDescriptor (list event) pipe_read _).
  intros p count Hc. destruct p as [|[c|e] rest]; simpl; lia.
Defined.

Definition pipe_world (p : list event) : world pipe :=
  {| w_fd := p : fd_state pipe; w_errno := 0; w_pending := None; w_trace := [] |}.

(** Two pipes used in the concrete runs below, for a call with count 5000:
    one holds a full buffer and then 10 bytes more, the other holds a full
    buffer and then lets the [read] fail with [e]. *)
Definition short_pipe : list event := [Burst 4096; Burst 10].

Definition faulty_pipe (e : Z) : list event := [Burst 4096; Fault e].

(** The world at the head of the second iteration on such a pipe, and the
    world after a [read] in it has failed. *)
Definition second_iteration (p : list event) : world pipe :=
  {| w_fd := tl p : fd_state pipe; w_errno := 0; w_pending := None;
     w_trace := [mkSyscall 4096 4096] |}.

Definition after_fault (e : Z) (pending : option throwable) : world pipe :=
  {| w_fd := [] : fd_state pipe; w_errno := e; w_pending := pending;
     w_trace := [mkSyscall 4096 4096; mkSyscall 904 (-1)] |}.

(** The world after a call with count 5000 on [short_pipe]. *)
Definition short_pipe_done : world pipe :=
  {| w_fd := [] : fd_state pipe; w_errno := 0; w_pending := None;
     w_trace := [mkSyscall 4096 4096; mkSyscall 904 10] |}.

(** ** Accounting over the [read] calls

    What a list of [read] calls took out of the descriptor (a failed call
    takes nothing), and what it asked for. *)

Definition bytes_read (l : list syscall) : Z :=
  fold_right (fun sc s => Z.max 0 (sc_ret sc) + s) 0 l.

Definition bytes_requested (l : list syscall) : Z :=
  fold_right (fun sc s => sc_count sc + s) 0 l.

(** A [read] that asked for a whole buffer and got it. *)
Definition full_read (bs : Z) : syscall := mkSyscall bs bs.


(** ** Machine arithmetic *)

Lemma jlong_wrap_id (z : Z) : jlong_min <= z <= jlong_max -> jlong_wrap z = z.
Proof.
  unfold jlong_min, jlong_max, jlong_wrap.
  change (2 ^ 63) with 9223372036854775808.
  change (2 ^ 64) with 18446744073709551616.
  intros Hz. rewrite Z.mod_small; lia.
Qed.

Lemma jlong_min_neg : jlong_min < 0.
Proof. reflexivity. Qed.

Lemma buffer_size_min (n : Z) : buffer_size n = Z.min n 4096.
Proof.
  unfold buffer_size, MAX_SKIP_BUFFER_SIZE.
  destruct (Z.ltb_spec n 4096); lia.
Qed.

Lemma buffer_size_pos (n : Z) : 1 <= n -> 1 <= buffer_size n <= n.
Proof. rewrite buffer_size_min. lia. Qed.

(** Inside the loop [remaining] and [count] are computed without overflow. *)
Lemma request_min (n bs tn : Z) :
  n <= jlong_max -> 0 <= tn <= n -> request n bs tn = Z.min (n - tn) bs.
Proof.
  intros Hn Htn. unfold request, jlong_sub.
  pose proof jlong_min_neg.
  rewrite jlong_wrap_id by lia.
  destruct (Z.ltb_spec (n - tn) bs); lia.
Qed.

Lemma request_range (n bs tn : Z) :
  1 <= bs -> n <= jlong_max -> 0 <= tn <= n ->
  0 <= request n bs tn <= n - tn /\ request n bs tn <= bs.
Proof. intros Hbs Hn Htn. rewrite request_min by assumption. lia. Qed.

(** ** The loop, for any descriptor *)

Section SkipFacts.

Variable D : descriptor.
Variables IOS_INTERRUPTED IOS_THROWN : Z.

Local Abbreviation body := (loop_body D IOS_INTERRUPTED IOS_THROWN).
Local Abbreviation loop := (skip_loop D IOS_INTERRUPTED IOS_THROWN).
Local Abbreviation iter := (loop_iter D IOS_INTERRUPTED IOS_THROWN).
Local Abbreviation skip0 :=
  (Java_sun_nio_ch_PipeDispatcherImpl_skip0 D IOS_INTERRUPTED IOS_THROWN).

Lemma read_le (w : world D) (count : Z) : 0 <= count -> fst (read w count) <= count.
Proof.
  intros Hc. pose proof (sys_read_le D (w_fd w) count Hc) as H.
  unfold read. destruct (sys_read D (w_fd w) count) as [[nr e] k]. exact H.
Qed.

Lemma read_trace (w : world D) (count : Z) :
  w_trace (snd (read w count)) = w_trace w ++ [mkSyscall count (fst (read w count))].
Proof.
  unfold read. destruct (sys_read D (w_fd w) count) as [[nr e] k]. reflexivity.
Qed.

Lemma read_pending (w : world D) (count : Z) :
  w_pending (snd (read w count)) = w_pending w.
Proof.
  unfold read. destruct (sys_read D (w_fd w) count) as [[nr e] k]. reflexivity.
Qed.

(** The body of the loop in terms of the outcome of its [read]. *)
Lemma loop_body_eq (n bs tn : Z) (w : world D) :
  body n bs tn w =
  let nr := fst (read w (request n bs tn)) in
  let w1 := snd (read w (request n bs tn)) in
  if nr <? 0 then
    if (w_errno w1 =? EAGAIN) || (w_errno w1 =? EWOULDBLOCK) then Return tn w1
    else if w_errno w1 =? EINTR then Return IOS_INTERRUPTED w1
    else Return IOS_THROWN (JNU_ThrowIOExceptionWithLastError w1 "read")
  else
    if nr =? bs then Continue (if 0 <? nr then jlong_add tn nr else tn) w1
    else Return (if 0 <? nr then jlong_add tn nr else tn) w1.
Proof.
  unfold loop_body. destruct (read w (request n bs tn)) as [nr w1]. reflexivity.
Qed.

(** The counter is advanced without overflow. *)
Lemma accumulate_eq (n tn nr : Z) :
  n <= jlong_max -> 0 <= tn -> 0 <= nr -> tn + nr <= n ->
  (if 0 <? nr then jlong_add tn nr else tn) = tn + nr.
Proof.
  intros Hn Htn Hnr Hle. pose proof jlong_min_neg.
  destruct (Z.ltb_spec 0 nr).
  - unfold jlong_add. apply jlong_wrap_id. lia.
  - lia.
Qed.

(** What one iteration does when it is entered with the counter in range. *)
Section Iteration.

Variables n bs tn : Z.
Variable w : world D.
Hypothesis Hbs : 1 <= bs.
Hypothesis Hn : n <= jlong_max.
Hypothesis Htn : 0 <= tn <= n.

Let nr := fst (read w (request n bs tn)).
Let w1 := snd (read w (request n bs tn)).

Lemma nr_le : nr <= request n bs tn.
Proof. apply read_le. apply request_range; assumption. Qed.

Lemma body_ok :
  0 <= nr ->
  body n bs tn w = if nr =? bs then Continue (tn + nr) w1 else Return (tn + nr) w1.
Proof.
  intros Hnr. rewrite loop_body_eq. cbv zeta. fold nr w1.
  destruct (Z.ltb_spec nr 0); [lia|].
  pose proof nr_le. pose proof (request_range n bs tn Hbs Hn Htn).
  rewrite (accumulate_eq n) by lia. reflexivity.
Qed.

Lemma body_failed :
  nr < 0 ->
  body n bs tn w =
  if (w_errno w1 =? EAGAIN) || (w_errno w1 =? EWOULDBLOCK) then Return tn w1
  else if w_errno w1 =? EINTR then Return IOS_INTERRUPTED w1
  else Return IOS_THROWN (JNU_ThrowIOExceptionWithLastError w1 "read").
Proof.
  intros Hnr. rewrite loop_body_eq. cbv zeta. fold nr w1.
  destruct (Z.ltb_spec nr 0); [reflexivity|lia].
Qed.

Lemma body_continue (tn' : Z) (w' : world D) :
  body n bs tn w = Continue tn' w' ->
  nr = bs /\ tn' = tn + bs /\ tn' <= n /\ w' = w1.
Proof.
  intros Hb. destruct (Z.ltb_spec nr 0) as [Hneg|Hpos].
  - rewrite (body_failed Hneg) in Hb.
    destruct (_ || _); [discriminate|]. destruct (_ =? _); discriminate.
  - rewrite (body_ok Hpos) in Hb.
    destruct (Z.eqb_spec nr bs) as [He|He]; [|discriminate].
    injection Hb as <- <-.
    pose proof nr_le. pose proof (request_range n bs tn Hbs Hn Htn). repeat split; lia.
Qed.

Lemma body_return (r : Z) (w' : world D) :
  body n bs tn w = Return r w' ->
  (r = tn + Z.max 0 nr /\ tn <= r <= n /\ nr <> bs /\ w' = w1 /\
   (0 <= nr \/ w_errno w1 = EAGAIN \/ w_errno w1 = EWOULDBLOCK))
  \/ (r = IOS_INTERRUPTED /\ w' = w1 /\ read_fails w (request n bs tn) EINTR)
  \/ (r = IOS_THROWN /\ w' = JNU_ThrowIOExceptionWithLastError w1 "read" /\
      nr < 0 /\ w_errno w1 <> EAGAIN /\ w_errno w1 <> EWOULDBLOCK /\
      w_errno w1 <> EINTR).
Proof.
  intros Hb. destruct (Z.ltb_spec nr 0) as [Hneg|Hpos].
  - rewrite (body_failed Hneg) in Hb.
    destruct (Z.eqb_spec (w_errno w1) EAGAIN) as [Ha|Ha];
      destruct (Z.eqb_spec (w_errno w1) EWOULDBLOCK) as [Hw|Hw]; simpl in Hb;
      try (injection Hb as <- <-; left; repeat split; solve [lia | auto]).
    destruct (Z.eqb_spec (w_errno w1) EINTR) as [Hi|Hi]; injection Hb as <- <-.
    + right; left. repeat split; assumption.
    + right; right. repeat split; assumption.
  - rewrite (body_ok Hpos) in Hb.
    destruct (Z.eqb_spec nr bs) as [He|He]; [discriminate|].
    injection Hb as <- <-. left.
    pose proof nr_le. pose proof (request_range n bs tn Hbs Hn Htn). repeat split; solve [lia | auto].
Qed.

End Iteration.

(** Reaching iteration [j] and then running is running from the start. *)
Lemma iter_loop (j f : nat) (n bs : Z) :
  forall (tn : Z) (w : world D) (tn' : Z) (w' : world D),
  iter j n bs tn w = Some (tn', w') ->
  loop (j + f) n bs tn w = loop f n bs tn' w'.
Proof.
  induction j as [|j IH]; simpl; intros tn w tn' w' H.
  - injection H as <- <-. reflexivity.
  - destruct (body n bs tn w) as [tn1 w1|r w1]; [|discriminate].
    apply IH. exact H.
Qed.

(** Every value the loop returns is returned by an iteration it reaches. *)
Lemma loop_inv (fuel : nat) (n bs : Z) :
  forall (tn : Z) (w : world D) (r : Z) (w' : world D),
  loop fuel n bs tn w = Some (r, w') ->
  exists (j : nat) (tnj : Z) (wj : world D),
    (j < fuel)%nat /\ iter j n bs tn w = Some (tnj, wj) /\
    body n bs tnj wj = Return r w'.
Proof.
  induction fuel as [|fuel IH]; simpl; intros tn w r w' H; [discriminate|].
  destruct (body n bs tn w) as [tn1 w1|r1 w1] eqn:Hb.
  - destruct (IH _ _ _ _ H) as (j & tnj & wj & Hj & Hi & Hr).
    exists (S j), tnj, wj. simpl. rewrite Hb. repeat split; [lia|assumption|assumption].
  - injection H as <- <-. exists O, tn, w. simpl. repeat split; [lia|assumption].
Qed.

Lemma iter_return (j : nat) (n bs : Z) :
  forall (tn : Z) (w : world D) (tnj : Z) (wj : world D) (r : Z) (w' : world D) (fuel : nat),
  iter j n bs tn w = Some (tnj, wj) ->
  body n bs tnj wj = Return r w' ->
  (j < fuel)%nat ->
  loop fuel n bs tn w = Some (r, w').
Proof.
  intros tn w tnj wj r w' fuel Hi Hb Hf.
  replace fuel with (j + S (fuel - S j))%nat by lia.
  rewrite (iter_loop _ _ _ _ _ _ _ _ Hi). simpl. rewrite Hb. reflexivity.
Qed.

(** The state at the head of every iteration that is reached. *)
Lemma iter_inv (j : nat) (n bs : Z) :
  1 <= bs -> n <= jlong_max ->
  forall (tn : Z) (w : world D) (tn' : Z) (w' : world D),
  0 <= tn <= n ->
  iter j n bs tn w = Some (tn', w') ->
  tn' = tn + Z.of_nat j * bs /\ tn' <= n /\ w_pending w' = w_pending w /\
  exists l, issued w w' l /\ length l = j.
Proof.
  intros Hbs Hn. induction j as [|j IH]; intros tn w tn' w' Htn H.
  - simpl in H. injection H as <- <-. repeat split; try lia.
    exists []. split; [|reflexivity]. unfold issued. now rewrite app_nil_r.
  - simpl in H. destruct (body n bs tn w) as [tn1 w1|r w1] eqn:Hb; [|discriminate].
    destruct (body_continue n bs tn w Hbs Hn Htn _ _ Hb) as (_ & -> & Hle & ->).
    assert (Htn1 : 0 <= tn + bs <= n) by lia.
    destruct (IH _ _ _ _ Htn1 H) as (-> & Hle' & Hp & l & Hl & Hlen).
    rewrite Nat2Z.inj_succ. repeat split; [lia|lia| |].
    + rewrite Hp. apply read_pending.
    + unfold issued in *. rewrite read_trace in Hl. rewrite <- app_assoc in Hl.
      eexists. split; [exact Hl|]. simpl. now rewrite Hlen.
Qed.

Lemma loop_fuel_mono (f : nat) (n bs : Z) :
  forall (f' : nat) (tn : Z) (w : world D) (x : Z * world D),
  loop f n bs tn w = Some x -> (f <= f')%nat -> loop f' n bs tn w = Some x.
Proof.
  induction f as [|f IH]; simpl; intros f' tn w x H Hf; [discriminate|].
  destruct f' as [|f']; [lia|]. simpl.
  destruct (body n bs tn w) as [tn1 w1|r1 w1]; [|exact H].
  apply IH; [exact H|lia].
Qed.

(** The loop returns once the fuel exceeds the number of whole buffers that
    still fit in the count. *)
Lemma loop_total (fuel : nat) (n bs : Z) :
  1 <= bs -> n <= jlong_max ->
  forall (tn : Z) (w : world D),
  0 <= tn <= n ->
  (Z.to_nat ((n - tn) / bs) < fuel)%nat ->
  exists (r : Z) (w' : world D), loop fuel n bs tn w = Some (r, w').
Proof.
  intros Hbs Hn. induction fuel as [|fuel IH]; intros tn w Htn Hf; [lia|].
  simpl. destruct (body n bs tn w) as [tn1 w1|r1 w1] eqn:Hb.
  - destruct (body_continue n bs tn w Hbs Hn Htn _ _ Hb) as (_ & -> & Hle & _).
    apply IH; [lia|].
    replace (n - (tn + bs)) with (n - tn + (-1) * bs) by lia.
    rewrite Z.div_add by lia.
    assert (1 <= (n - tn) / bs) by (apply Z.div_le_lower_bound; lia).
    lia.
  - eauto.
Qed.

(** An iteration issues exactly one [read], whatever its outcome. *)
Lemma body_trace (n bs tn : Z) (w : world D) :
  issued w (iteration_world (body n bs tn w))
    [mkSyscall (request n bs tn) (fst (read w (request n bs tn)))].
Proof.
  unfold issued. rewrite loop_body_eq. cbv zeta.
  destruct (_ <? 0).
  - destruct (_ || _); [apply read_trace|].
    destruct (_ =? EINTR); apply read_trace.
  - destruct (_ =? bs); apply read_trace.
Qed.

Lemma body_continue_world (n bs tn : Z) (w : world D) (tn' : Z) (w' : world D) :
  body n bs tn w = Continue tn' w' -> w' = snd (read w (request n bs tn)).
Proof.
  rewrite loop_body_eq. cbv zeta.
  destruct (_ <? 0).
  - destruct (_ || _); [discriminate|]. destruct (_ =? EINTR); discriminate.
  - destruct (_ =? bs); [|discriminate]. intros H. injection H as _ <-. reflexivity.
Qed.

(** No exception becomes pending while the loop goes on. *)
Lemma iter_pending (j : nat) (n bs : Z) :
  forall (tn : Z) (w : world D) (tn' : Z) (w' : world D),
  iter j n bs tn w = Some (tn', w') -> w_pending w' = w_pending w.
Proof.
  induction j as [|j IH]; simpl; intros tn w tn' w' H.
  - injection H as _ <-. reflexivity.
  - destruct (body n bs tn w) as [tn1 w1|r w1] eqn:Hb; [|discriminate].
    rewrite (IH _ _ _ _ H), (body_continue_world _ _ _ _ _ _ Hb). apply read_pending.
Qed.

(** Iteration [S j] is entered from iteration [j]. *)
Lemma iter_snoc (j : nat) (n bs : Z) :
  forall (tn : Z) (w : world D),
  iter (S j) n bs tn w =
  match iter j n bs tn w with
  | Some (tnj, wj) =>
      match body n bs tnj wj with
      | Continue tn' w' => Some (tn', w')
      | Return _ _ => None
      end
  | None => None
  end.
Proof.
  induction j as [|j IH]; intros tn w.
  - simpl. destruct (body n bs tn w); reflexivity.
  - change (iter (S (S j)) n bs tn w) with
      (match body n bs tn w with
       | Continue tn1 w1 => iter (S j) n bs tn1 w1
       | Return _ _ => None
       end).
    change (iter (S j) n bs tn w) with
      (match body n bs tn w with
       | Continue tn1 w1 => iter j n bs tn1 w1
       | Return _ _ => None
       end).
    destruct (body n bs tn w) as [tn1 w1|r w1]; [apply IH|reflexivity].
Qed.

Lemma skip0_loop (fuel : nat) (w : world D) (n : Z) :
  1 <= n -> skip0 fuel w n = loop fuel n (buffer_size n) 0 w.
Proof.
  intros Hn. unfold Java_sun_nio_ch_PipeDispatcherImpl_skip0.
  destruct (Z.ltb_spec n 1); [lia|reflexivity].
Qed.

(** ** The claims *)

(** C2: when a [read] fails with [EINTR], at whichever iteration of the loop
    and whatever the counter [tn] has reached by then, the function returns
    [IOS_INTERRUPTED]: the bytes skipped so far are not reported. *)
Theorem skip0_interrupted
  (n : Z) (w0 : world D) (j : nat) (tn : Z) (w : world D) (fuel : nat) :
  1 <= n ->
  iter j n (buffer_size n) 0 w0 = Some (tn, w) ->
  read_fails w (request n (buffer_size n) tn) EINTR ->
  (j < fuel)%nat ->
  skip0 fuel w0 n =
  Some (IOS_INTERRUPTED, snd (read w (request n (buffer_size n) tn))).
Proof.
  intros Hn Hi [Hneg He] Hf. rewrite skip0_loop by assumption.
  apply (iter_return _ _ _ _ _ _ _ _ _ _ Hi); [|assumption].
  rewrite loop_body_eq. cbv zeta.
  destruct (Z.ltb_spec (fst (read w (request n (buffer_size n) tn))) 0); [|lia].
  rewrite He. reflexivity.
Qed.

(** C5: when a [read] fails with [EAGAIN] or [EWOULDBLOCK], the function
    returns the total accumulated so far and leaves no exception pending
    that was not there before; when this happens at the first [read], the
    result is 0. *)
Theorem skip0_would_block
  (n : Z) (w0 : world D) (j : nat) (tn : Z) (w : world D) (e : Z) (fuel : nat) :
  1 <= n ->
  iter j n (buffer_size n) 0 w0 = Some (tn, w) ->
  read_fails w (request n (buffer_size n) tn) e ->
  e = EAGAIN \/ e = EWOULDBLOCK ->
  (j < fuel)%nat ->
  let w' := snd (read w (request n (buffer_size n) tn)) in
  skip0 fuel w0 n = Some (tn, w') /\
  w_pending w' = w_pending w0 /\
  (j = O -> skip0 fuel w0 n = Some (0, w')).
Proof.
  intros Hn Hi [Hneg He] Hag Hf w'.
  assert (Hr : skip0 fuel w0 n = Some (tn, w')).
  { rewrite skip0_loop by assumption.
    apply (iter_return _ _ _ _ _ _ _ _ _ _ Hi); [|assumption].
    rewrite loop_body_eq. cbv zeta.
    destruct (Z.ltb_spec (fst (read w (request n (buffer_size n) tn))) 0); [|lia].
    rewrite He. destruct Hag as [->| ->]; reflexivity. }
  split; [exact Hr|]. split.
  - unfold w'. rewrite read_pending. exact (iter_pending _ _ _ _ _ _ _ Hi).
  - intros ->. simpl in Hi. injection Hi as <- <-. exact Hr.
Qed.

(** What the function returns, for any count that fits a [jlong]. *)
Lemma skip0_inv (fuel : nat) (w0 : world D) (n r : Z) (w' : world D) :
  n <= jlong_max ->
  skip0 fuel w0 n = Some (r, w') ->
  (n < 1 /\ r = 0 /\ w' = w0) \/
  (1 <= n /\
   exists (j : nat) (tn : Z) (w : world D),
     (j < fuel)%nat /\ iter j n (buffer_size n) 0 w0 = Some (tn, w) /\
     0 <= tn <= n /\ w_pending w = w_pending w0 /\
     body n (buffer_size n) tn w = Return r w').
Proof.
  intros Hn H. destruct (Z.lt_ge_cases n 1) as [Hlt|Hge].
  - left. unfold Java_sun_nio_ch_PipeDispatcherImpl_skip0 in H.
    destruct (Z.ltb_spec n 1); [|lia]. injection H as <- <-. auto.
  - right. split; [assumption|]. rewrite skip0_loop in H by assumption.
    destruct (loop_inv _ _ _ _ _ _ _ H) as (j & tn & w & Hj & Hi & Hb).
    pose proof (buffer_size_pos n Hge) as Hbs.
    destruct (iter_inv j n (buffer_size n) ltac:(lia) Hn 0 w0 tn w ltac:(lia) Hi)
      as (Htn & Hle & Hp & _).
    exists j, tn, w. repeat split; try assumption. nia.
Qed.

(** C6: when a [read] fails with an error other than [EAGAIN],
    [EWOULDBLOCK] and [EINTR], the function makes an [IOException] carrying
    that error pending and returns [IOS_THROWN]; and whatever happens, the
    function ends in one of three ways: a count of bytes (between 0 and the
    count asked for) with nothing thrown, [IOS_INTERRUPTED] with nothing
    thrown, or [IOS_THROWN] with the [IOException] pending. *)
Theorem skip0_thrown (n : Z) (w0 : world D) :
  (forall (j : nat) (tn : Z) (w : world D) (e : Z) (fuel : nat),
     1 <= n ->
     iter j n (buffer_size n) 0 w0 = Some (tn, w) ->
     read_fails w (request n (buffer_size n) tn) e ->
     e <> EAGAIN -> e <> EWOULDBLOCK -> e <> EINTR ->
     (j < fuel)%nat ->
     exists w' : world D,
       skip0 fuel w0 n = Some (IOS_THROWN, w') /\
       w_pending w' = Some (mkThrowable "java/io/IOException" e "read")) /\
  (forall (fuel : nat) (r : Z) (w' : world D),
     n <= jlong_max ->
     skip0 fuel w0 n = Some (r, w') ->
     (0 <= r <= Z.max 0 n /\ w_pending w' = w_pending w0) \/
     (r = IOS_INTERRUPTED /\ w_pending w' = w_pending w0) \/
     (r = IOS_THROWN /\
      exists e : Z, w_pending w' = Some (mkThrowable "java/io/IOException" e "read"))).
Proof.
  split.
  - intros j tn w e fuel Hn Hi [Hneg He] Ha Hw Hint Hf.
    eexists. split.
    + rewrite skip0_loop by assumption.
      apply (iter_return _ _ _ _ _ _ _ _ _ _ Hi); [|assumption].
      rewrite loop_body_eq. cbv zeta.
      destruct (Z.ltb_spec (fst (read w (request n (buffer_size n) tn))) 0); [|lia].
      rewrite He.
      destruct (Z.eqb_spec e EAGAIN); [contradiction|].
      destruct (Z.eqb_spec e EWOULDBLOCK); [contradiction|].
      destruct (Z.eqb_spec e EINTR); [contradiction|]. reflexivity.
    + simpl. rewrite He. reflexivity.
  - intros fuel r w' Hn H.
    destruct (skip0_inv _ _ _ _ _ Hn H)
      as [(Hlt & -> & ->)|(Hge & j & tn & w & _ & Hi & Htn & Hp & Hb)].
    + left. split; [lia|reflexivity].
    + pose proof (buffer_size_pos n Hge) as Hbs.
      destruct (body_return n (buffer_size n) tn w ltac:(lia) Hn Htn _ _ Hb)
        as [(_ & Hr & _ & -> & _)|[(-> & -> & _)|(-> & -> & _)]].
      * left. split; [lia|]. rewrite read_pending. exact Hp.
      * right; left. split; [reflexivity|]. rewrite read_pending. exact Hp.
      * right; right. split; [reflexivity|]. eexists. reflexivity.
Qed.

(** C3, as amended: at the head of every iteration the counter is between 0
    and the count asked for; every value the function returns that is not a
    sentinel is between 0 and the count asked for, or is 0 when that count is
    below 1; and with negative sentinels, a value returned after a [read]
    that succeeded or would have blocked is never one of them. *)
Theorem skip0_count_range (n : Z) (w0 : world D) :
  n <= jlong_max ->
  IOS_INTERRUPTED < 0 -> IOS_THROWN < 0 ->
  (forall (j : nat) (tn : Z) (w : world D),
     1 <= n -> iter j n (buffer_size n) 0 w0 = Some (tn, w) -> 0 <= tn <= n) /\
  (forall (fuel : nat) (r : Z) (w' : world D),
     skip0 fuel w0 n = Some (r, w') ->
     r <> IOS_INTERRUPTED -> r <> IOS_THROWN -> 0 <= r <= Z.max 0 n) /\
  (forall (j : nat) (tn : Z) (w : world D) (r : Z) (w' : world D),
     1 <= n -> iter j n (buffer_size n) 0 w0 = Some (tn, w) ->
     body n (buffer_size n) tn w = Return r w' ->
     let w1 := snd (read w (request n (buffer_size n) tn)) in
     0 <= fst (read w (request n (buffer_size n) tn)) \/
       w_errno w1 = EAGAIN \/ w_errno w1 = EWOULDBLOCK ->
     0 <= r <= n /\ r <> IOS_INTERRUPTED /\ r <> IOS_THROWN).
Proof.
  intros Hn Hint Hthr.
  assert (Hreach : forall (j : nat) (tn : Z) (w : world D),
             1 <= n -> iter j n (buffer_size n) 0 w0 = Some (tn, w) -> 0 <= tn <= n).
  { intros j tn w Hge Hi. pose proof (buffer_size_pos n Hge) as Hbs.
    destruct (iter_inv j n (buffer_size n) ltac:(lia) Hn 0 w0 tn w ltac:(lia) Hi)
      as (Htn & Hle & _). nia. }
  split; [exact Hreach|]. split.
  - intros fuel r w' H Hni Hnt.
    destruct (skip0_inv _ _ _ _ _ Hn H)
      as [(Hlt & -> & ->)|(Hge & j & tn & w & _ & Hi & Htn & Hp & Hb)]; [lia|].
    pose proof (buffer_size_pos n Hge) as Hbs.
    destruct (body_return n (buffer_size n) tn w ltac:(lia) Hn Htn _ _ Hb)
      as [(_ & Hr & _)|[(-> & _)|(-> & _)]]; [lia|contradiction|contradiction].
  - intros j tn w r w' Hge Hi Hb w1 Hok.
    pose proof (buffer_size_pos n Hge) as Hbs.
    pose proof (Hreach _ _ _ Hge Hi) as Htn.
    destruct (body_return n (buffer_size n) tn w ltac:(lia) Hn Htn _ _ Hb)
      as [(_ & Hr & _)|[(_ & _ & Hneg & He)|(_ & _ & Hneg & Ha & Hw & _)]].
    + lia.
    + exfalso. fold w1 in He. unfold EWOULDBLOCK, EAGAIN, EINTR in *. lia.
    + exfalso. fold w1 in Ha, Hw. lia.
Qed.

(** C4: for a count below 1 the function returns 0 at once, whatever the
    fuel, in the world it was called in: no [read] has been issued. *)
Theorem skip0_nonpositive (fuel : nat) (w : world D) (n : Z) :
  n < 1 ->
  skip0 fuel w n = Some (0, w) /\ issued w w [].
Proof.
  intros Hn. split.
  - unfold Java_sun_nio_ch_PipeDispatcherImpl_skip0.
    destruct (Z.ltb_spec n 1); [reflexivity|lia].
  - unfold issued. now rewrite app_nil_r.
Qed.

(** C7: after a [read] that succeeded with [nr] bytes the loop goes on to
    the next iteration exactly when [nr] is the buffer size; otherwise, the
    end-of-stream [nr = 0] included, the function returns the total
    accumulated, this [read] counted. *)
Theorem loop_continues_iff_full
  (n : Z) (w0 : world D) (j : nat) (tn : Z) (w : world D) :
  1 <= n <= jlong_max ->
  iter j n (buffer_size n) 0 w0 = Some (tn, w) ->
  let bs := buffer_size n in
  let nr := fst (read w (request n bs tn)) in
  let w1 := snd (read w (request n bs tn)) in
  0 <= nr ->
  ((exists (tn' : Z) (w' : world D), body n bs tn w = Continue tn' w') <-> nr = bs) /\
  (nr = bs -> body n bs tn w = Continue (tn + nr) w1) /\
  (nr <> bs ->
   body n bs tn w = Return (tn + nr) w1 /\
   forall fuel : nat, (j < fuel)%nat -> skip0 fuel w0 n = Some (tn + nr, w1)).
Proof.
  intros [Hge Hn] Hi bs nr w1 Hnr.
  pose proof (buffer_size_pos n Hge) as Hbs. fold bs in Hbs.
  assert (Htn : 0 <= tn <= n).
  { destruct (iter_inv j n bs ltac:(lia) Hn 0 w0 tn w ltac:(lia) Hi) as (Htn & Hle & _).
    nia. }
  pose proof (body_ok n bs tn w ltac:(lia) Hn Htn Hnr) as Hb.
  fold nr w1 in Hb.
  destruct (Z.eqb_spec nr bs) as [Heq|Hne].
  - split; [|split].
    + split; [intros _; exact Heq|intros _; eauto].
    + intros _. exact Hb.
    + intros Hc. contradiction.
  - split; [|split].
    + split; [intros (tn' & w' & Hc); rewrite Hb in Hc; discriminate|contradiction].
    + contradiction.
    + intros _. split; [exact Hb|]. intros fuel Hf.
      rewrite skip0_loop by assumption.
      exact (iter_return _ _ _ _ _ _ _ _ _ _ Hi Hb Hf).
Qed.

(** When every [read] so far filled the buffer, iteration [j] is entered
    with [j] buffers skipped. *)
Lemma iter_full (n : Z) (w0 : world D) (m : nat) :
  1 <= n <= jlong_max ->
  Z.of_nat m * buffer_size n <= n ->
  (forall (j : nat) (tn : Z) (w : world D),
     (j < m)%nat -> iter j n (buffer_size n) 0 w0 = Some (tn, w) ->
     fst (read w (request n (buffer_size n) tn)) = request n (buffer_size n) tn) ->
  exists wm : world D,
    iter m n (buffer_size n) 0 w0 = Some (Z.of_nat m * buffer_size n, wm).
Proof.
  intros [Hge Hn]. pose proof (buffer_size_pos n Hge) as Hbs.
  set (bs := buffer_size n) in *.
  induction m as [|m IH]; intros Hm Hfill.
  - exists w0. reflexivity.
  - destruct IH as (wm & Hi); [lia|intros j tn w Hj; apply Hfill; lia|].
    rewrite iter_snoc, Hi.
    assert (Htn : 0 <= Z.of_nat m * bs <= n) by lia.
    assert (Hlt : (m < S m)%nat) by lia.
    pose proof (Hfill m _ _ Hlt Hi) as Hnr.
    assert (Hreq : request n bs (Z.of_nat m * bs) = bs).
    { rewrite (request_min n bs _ Hn Htn). lia. }
    rewrite Hreq in Hnr.
    assert (Hb1 : 1 <= bs) by lia.
    assert (Hpos : 0 <= fst (read wm (request n bs (Z.of_nat m * bs)))).
    { rewrite Hreq, Hnr. lia. }
    rewrite (body_ok n bs _ wm Hb1 Hn Htn Hpos), Hreq, Hnr, Z.eqb_refl.
    eexists. f_equal. f_equal. lia.
Qed.

(** C9: when the count is a positive multiple of the buffer size and every
    [read] fills the buffer, the loop does not stop once the count is used
    up: after the [n / bs] reads of whole buffers it enters one more
    iteration with the counter at [n], whose [read] asks for 0 bytes; when
    that [read] returns 0 the function returns [n]. *)
Theorem skip0_exact_multiple (n : Z) (w0 : world D) :
  1 <= n <= jlong_max ->
  let bs := buffer_size n in
  let m := Z.to_nat (n / bs) in
  n mod bs = 0 ->
  (forall (j : nat) (tn : Z) (w : world D),
     (j < m)%nat -> iter j n bs 0 w0 = Some (tn, w) ->
     fst (read w (request n bs tn)) = request n bs tn) ->
  exists (wm : world D) (l : list syscall),
    iter m n bs 0 w0 = Some (n, wm) /\
    issued w0 wm l /\ length l = m /\
    issued wm (iteration_world (body n bs n wm)) [mkSyscall 0 (fst (read wm 0))] /\
    (fst (read wm 0) = 0 ->
     forall fuel : nat, (m < fuel)%nat -> skip0 fuel w0 n = Some (n, snd (read wm 0))).
Proof.
  intros [Hge Hn] bs m Hmod Hfill.
  pose proof (buffer_size_pos n Hge) as Hbs. fold bs in Hbs.
  assert (Hm : Z.of_nat m * bs = n).
  { unfold m. rewrite Z2Nat.id by (apply Z.div_pos; lia).
    pose proof (Z.div_mod n bs ltac:(lia)). lia. }
  destruct (iter_full n w0 m (conj Hge Hn) ltac:(fold bs; lia) Hfill) as (wm & Hi).
  fold bs in Hi. rewrite Hm in Hi.
  destruct (iter_inv m n bs ltac:(lia) Hn 0 w0 n wm ltac:(lia) Hi)
    as (_ & _ & _ & l & Hl & Hlen).
  assert (Hreq : request n bs n = 0).
  { rewrite request_min by lia. lia. }
  exists wm, l. repeat split; try assumption.
  - rewrite <- Hreq at 1 2. apply body_trace.
  - intros H0 fuel Hf. rewrite skip0_loop by assumption. fold bs.
    apply (iter_return _ _ _ _ _ _ _ _ _ _ Hi); [|assumption].
    rewrite (body_ok n bs n wm ltac:(lia) Hn ltac:(lia)); rewrite Hreq, H0; [|lia].
    destruct (Z.eqb_spec 0 bs); [lia|]. f_equal. lia.
Qed.

(** C10: the loop always returns, after at most [n / bs + 1] iterations:
    with at least that much fuel the function gives one and the same result,
    having issued at most that many reads (one per iteration), and iteration
    number [n / bs + 1] is never entered; an iteration that continues adds
    exactly [bs] to the counter, so what remains of the count goes down. *)
Theorem skip0_terminates (n : Z) (w0 : world D) :
  1 <= n <= jlong_max ->
  let bs := buffer_size n in
  let B := (Z.to_nat (n / bs) + 1)%nat in
  (exists (r : Z) (w' : world D) (l : list syscall),
     (forall fuel : nat, (B <= fuel)%nat -> skip0 fuel w0 n = Some (r, w')) /\
     issued w0 w' l /\ (length l <= B)%nat) /\
  iter B n bs 0 w0 = None /\
  (forall (j : nat) (tn : Z) (w : world D) (tn' : Z) (w' : world D),
     iter j n bs 0 w0 = Some (tn, w) ->
     body n bs tn w = Continue tn' w' ->
     tn' = tn + bs /\ 0 <= n - tn' < n - tn).
Proof.
  intros [Hge Hn] bs B.
  pose proof (buffer_size_pos n Hge) as Hbs. fold bs in Hbs.
  assert (Hdiv : 0 <= n / bs) by (apply Z.div_pos; lia).
  assert (Hreach : forall (j : nat) (tn : Z) (w : world D),
             iter j n bs 0 w0 = Some (tn, w) ->
             tn = Z.of_nat j * bs /\ 0 <= tn <= n /\
             exists l, issued w0 w l /\ length l = j).
  { intros j tn w Hi.
    destruct (iter_inv j n bs ltac:(lia) Hn 0 w0 tn w ltac:(lia) Hi)
      as (Htn & Hle & _ & Hl).
    repeat split; [lia|nia|lia|exact Hl]. }
  split; [|split].
  - destruct (loop_total B n bs ltac:(lia) Hn 0 w0 ltac:(lia)) as (r & w' & Hr).
    { unfold B. rewrite Z.sub_0_r. lia. }
    destruct (loop_inv _ _ _ _ _ _ _ Hr) as (j & tn & w & Hj & Hi & Hb).
    destruct (Hreach _ _ _ Hi) as (_ & _ & l & Hl & Hlen).
    exists r, w', (l ++ [mkSyscall (request n bs tn) (fst (read w (request n bs tn)))]).
    repeat split.
    + intros fuel Hf. rewrite skip0_loop by assumption.
      exact (loop_fuel_mono _ _ _ _ _ _ _ Hr Hf).
    + pose proof (body_trace n bs tn w) as Ht. rewrite Hb in Ht.
      unfold issued in *. simpl in Ht. rewrite Ht, Hl. now rewrite app_assoc.
    + rewrite length_app. simpl. lia.
  - destruct (iter B n bs 0 w0) as [[tn w]|] eqn:Hi; [|reflexivity].
    destruct (Hreach _ _ _ Hi) as (Htn & Hle & _). exfalso.
    unfold B in Htn. rewrite Nat2Z.inj_add, Z2Nat.id in Htn by assumption.
    pose proof (Z.div_mod n bs ltac:(lia)).
    pose proof (Z.mod_pos_bound n bs ltac:(lia)). simpl in Htn. nia.
  - intros j tn w tn' w' Hi Hb.
    destruct (Hreach _ _ _ Hi) as (_ & Htn & _).
    destruct (body_continue n bs tn w ltac:(lia) Hn Htn _ _ Hb) as (_ & -> & Hle & _).
    lia.
Qed.

End SkipFacts.

(** ** The function on a pipe *)

Lemma pipe_holding_read (a count : Z) :
  0 <= a -> 0 <= count ->
  pipe_read (pipe_holding a) count =
  (Z.min count a, 0, pipe_holding (a - Z.min count a)).
Proof.
  intros Ha Hc. destruct a as [|c|c]; [| |lia].
  - simpl. rewrite Z.min_r by lia. reflexivity.
  - unfold pipe_holding at 1. unfold pipe_read.
    destruct (Z.ltb_spec (Z.min count (Z.pos c)) (Z.pos c)) as [Hlt|Hge].
    + destruct (Z.pos c - Z.min count (Z.pos c)) as [|q|q] eqn:Hq; [lia| |lia].
      reflexivity.
    + replace (Z.pos c - Z.min count (Z.pos c)) with 0 by lia. reflexivity.
Qed.

Lemma pipe_holding_bytes (k : Z) :
  0 <= k -> pipe_bytes (pipe_holding k) = k /\ pipe_faultless (pipe_holding k) = true.
Proof.
  intros Hk. destruct k as [|c|c]; simpl; split; try reflexivity; lia.
Qed.

Lemma pipe_never_short : never_short (D := pipe) pipe_bytes pipe_ready.
Proof.
  intros p count Hp Hc. unfold pipe_ready in Hp.
  assert (Ha : 0 <= pipe_bytes p).
  { rewrite Hp. destruct (pipe_bytes p); simpl; lia. }
  change (sys_read pipe p count) with (pipe_read p count).
  set (a := pipe_bytes p) in *.
  assert (Hk : 0 <= a - Z.min count a) by lia.
  destruct (pipe_holding_bytes _ Hk) as [Hb _].
  rewrite Hp, pipe_holding_read by assumption. simpl.
  repeat split; try assumption.
  unfold pipe_ready. now rewrite Hb.
Qed.

(** ** The function on a descriptor whose bytes are all available *)

Section AllAvailable.

Variable D : descriptor.
Variables IOS_INTERRUPTED IOS_THROWN : Z.
Variable avail : fd_state D -> Z.
Variable ready : fd_state D -> Prop.
Hypothesis Hshort : never_short avail ready.

Lemma read_fd (w : world D) (count : Z) :
  fst (read w count) = fst (fst (sys_read D (w_fd w) count)) /\
  w_fd (snd (read w count)) = snd (sys_read D (w_fd w) count).
Proof.
  unfold read. destruct (sys_read D (w_fd w) count) as [[nr e] k]. split; reflexivity.
Qed.

(** The loop skips what is there, up to what remains of the count. *)
Lemma loop_never_short (n bs : Z) (fuel : nat) :
  1 <= bs -> n <= jlong_max ->
  forall (tn : Z) (w : world D),
  0 <= tn <= n -> ready (w_fd w) ->
  (Z.to_nat ((n - tn) / bs) < fuel)%nat ->
  exists w' : world D,
    skip_loop D IOS_INTERRUPTED IOS_THROWN fuel n bs tn w
    = Some (tn + Z.min (avail (w_fd w)) (n - tn), w') /\
    w_pending w' = w_pending w.
Proof.
  intros Hbs Hn. induction fuel as [|fuel IH]; intros tn w Htn Hw Hf; [lia|].
  pose proof (request_range n bs tn Hbs Hn Htn) as Hreq.
  destruct (Hshort (w_fd w) (request n bs tn) Hw ltac:(lia)) as (Ha & Hnr & Hw1 & Ha1).
  destruct (read_fd w (request n bs tn)) as [Hfst Hsnd].
  rewrite <- Hfst in Hnr. rewrite <- Hsnd in Hw1, Ha1.
  assert (Hpos : 0 <= fst (read w (request n bs tn))) by lia.
  simpl. rewrite (body_ok D IOS_INTERRUPTED IOS_THROWN n bs tn w Hbs Hn Htn Hpos), Hnr.
  rewrite (request_min n bs tn Hn Htn) in *.
  destruct (Z.eqb_spec (Z.min (Z.min (n - tn) bs) (avail (w_fd w))) bs) as [Heq|Hne].
  - rewrite Heq in *.
    destruct (IH (tn + bs) (snd (read w (Z.min (n - tn) bs)))) as (w' & Hr & Hp);
      [lia|assumption| |].
    + replace (n - (tn + bs)) with (n - tn + (-1) * bs) by lia.
      rewrite Z.div_add by lia.
      assert (1 <= (n - tn) / bs) by (apply Z.div_le_lower_bound; lia).
      lia.
    + exists w'. rewrite Hr, Hp, read_pending, Ha1. split; [|reflexivity].
      f_equal. f_equal. lia.
  - eexists. split; [|apply read_pending]. f_equal. f_equal. lia.
Qed.

(** C1, as amended: on a descriptor that holds [k] bytes before
    end-of-stream, all of them there at once so that no [read] fails or is
    cut short while bytes remain, a call with a count of at least 1 returns
    the smaller of [k] and the count, and throws nothing. *)
Theorem skip0_all_available (n : Z) (fuel : nat) (w0 : world D) :
  1 <= n <= jlong_max ->
  ready (w_fd w0) ->
  (Z.to_nat (n / buffer_size n) < fuel)%nat ->
  exists w' : world D,
    Java_sun_nio_ch_PipeDispatcherImpl_skip0 D IOS_INTERRUPTED IOS_THROWN fuel w0 n
    = Some (Z.min (avail (w_fd w0)) n, w') /\
    w_pending w' = w_pending w0.
Proof.
  intros [Hge Hn] Hw Hf. pose proof (buffer_size_pos n Hge) as Hbs.
  rewrite skip0_loop by assumption.
  destruct (loop_never_short n (buffer_size n) fuel ltac:(lia) Hn 0 w0 ltac:(lia) Hw)
    as (w' & Hr & Hp).
  { rewrite Z.sub_0_r. exact Hf. }
  exists w'. rewrite Z.sub_0_r in Hr. split; [exact Hr|exact Hp].
Qed.

End AllAvailable.

(** ** Concrete runs *)

(** C1, as stated, fails: a pipe that delivers 10 bytes before
    end-of-stream, in two bursts of 5, never fails; a call with count 10
    returns 5 after a single [read]. *)
Lemma skip0_short_read_counterexample :
  pipe_faultless [Burst 5; Burst 5] = true /\
  pipe_bytes [Burst 5; Burst 5] = 10 /\
  (forall fuel : nat,
     Java_sun_nio_ch_PipeDispatcherImpl_skip0 pipe (-3) (-5) (S fuel)
       (pipe_world [Burst 5; Burst 5]) 10
     = Some (5, {| w_fd := [Burst 5] : fd_state pipe; w_errno := 0;
                   w_pending := None; w_trace := [mkSyscall 10 5] |})) /\
  5 <> Z.min 10 10.
Proof.
  repeat split; try reflexivity. lia.
Qed.

(** C3, as stated, fails: for the count -1 the function returns 0, which is
    no sentinel and is greater than the count asked for. *)
Lemma skip0_negative_count_counterexample :
  (forall fuel : nat,
     Java_sun_nio_ch_PipeDispatcherImpl_skip0 pipe (-3) (-5) fuel (pipe_world []) (-1)
     = Some (0, pipe_world [])) /\
  0 <> -3 /\ 0 <> -5 /\ ~ (0 <= 0 <= -1).
Proof.
  repeat split; try reflexivity; lia.
Qed.


Lemma skip0_all_available_witness :
  pipe_bytes (pipe_holding 20) = 20 /\
  exists w' : world pipe,
    Java_sun_nio_ch_PipeDispatcherImpl_skip0 pipe (-3) (-5) 2 (pipe_world (pipe_holding 20)) 10
    = Some (10, w') /\
    w_pending w' = None.
Proof.
  split; [reflexivity|].
  apply (skip0_all_available pipe (-3) (-5) pipe_bytes pipe_ready pipe_never_short
           10 2 (pipe_world (pipe_holding 20))).
  - vm_compute. split; discriminate.
  - reflexivity.
  - vm_compute. lia.
Defined.

Lemma skip0_interrupted_witness :
  Java_sun_nio_ch_PipeDispatcherImpl_skip0 pipe (-3) (-5) 2
    (pipe_world (faulty_pipe EINTR)) 5000
  = Some (-3, after_fault EINTR None).
Proof.
  apply (skip0_interrupted pipe (-3) (-5) 5000 (pipe_world (faulty_pipe EINTR))
           1 4096 (second_iteration (faulty_pipe EINTR)) 2).
  - lia.
  - reflexivity.
  - split; [vm_compute; reflexivity|reflexivity].
  - lia.
Defined.

Lemma skip0_would_block_witness :
  Java_sun_nio_ch_PipeDispatcherImpl_skip0 pipe (-3) (-5) 2
    (pipe_world (faulty_pipe EAGAIN)) 5000
  = Some (4096, after_fault EAGAIN None) /\
  exists w' : world pipe,
    Java_sun_nio_ch_PipeDispatcherImpl_skip0 pipe (-3) (-5) 1
      (pipe_world [Fault EWOULDBLOCK]) 5000 = Some (0, w') /\
    w_pending w' = None.
Proof.
  split.
  - apply (skip0_would_block pipe (-3) (-5) 5000 (pipe_world (faulty_pipe EAGAIN))
             1 4096 (second_iteration (faulty_pipe EAGAIN)) EAGAIN 2).
    + lia.
    + reflexivity.
    + split; [vm_compute; reflexivity|reflexivity].
    + left. reflexivity.
    + lia.
  - eexists.
    destruct (skip0_would_block pipe (-3) (-5) 5000 (pipe_world [Fault EWOULDBLOCK])
                0 0 (pipe_world [Fault EWOULDBLOCK]) EWOULDBLOCK 1)
      as (_ & Hp & H0).
    + lia.
    + reflexivity.
    + split; [vm_compute; reflexivity|reflexivity].
    + right. reflexivity.
    + lia.
    + split; [exact (H0 eq_refl)|exact Hp].
Defined.

Lemma skip0_thrown_witness :
  (exists w' : world pipe,
     Java_sun_nio_ch_PipeDispatcherImpl_skip0 pipe (-3) (-5) 2
       (pipe_world (faulty_pipe 5)) 5000 = Some (-5, w') /\
     w_pending w' = Some (mkThrowable "java/io/IOException" 5 "read")) /\
  ((0 <= 4106 <= Z.max 0 5000 /\
    w_pending (iteration_world
                 (loop_body pipe (-3) (-5) 5000 4096 4096 (second_iteration short_pipe)))
    = w_pending (pipe_world short_pipe)) \/
   (4106 = -3 /\
    w_pending (iteration_world
                 (loop_body pipe (-3) (-5) 5000 4096 4096 (second_iteration short_pipe)))
    = w_pending (pipe_world short_pipe)) \/
   (4106 = -5 /\
    exists e : Z,
      w_pending (iteration_world
                   (loop_body pipe (-3) (-5) 5000 4096 4096 (second_iteration short_pipe)))
      = Some (mkThrowable "java/io/IOException" e "read"))).
Proof.
  split.
  - apply (proj1 (skip0_thrown pipe (-3) (-5) 5000 (pipe_world (faulty_pipe 5)))
             1%nat 4096 (second_iteration (faulty_pipe 5)) 5 2%nat).
    + lia.
    + reflexivity.
    + split; [vm_compute; reflexivity|reflexivity].
    + vm_compute. discriminate.
    + vm_compute. discriminate.
    + vm_compute. discriminate.
    + lia.
  - apply (proj2 (skip0_thrown pipe (-3) (-5) 5000 (pipe_world short_pipe)) 2%nat).
    + vm_compute. discriminate.
    + reflexivity.
Defined.

Lemma skip0_count_range_witness :
  option_map fst (loop_iter pipe (-3) (-5) 1 5000 (buffer_size 5000) 0 (pipe_world short_pipe))
  = Some 4096 /\
  0 <= 4096 <= 5000 /\
  option_map fst
    (Java_sun_nio_ch_PipeDispatcherImpl_skip0 pipe (-3) (-5) 2 (pipe_world short_pipe) 5000)
  = Some 4106 /\
  0 <= 4106 <= Z.max 0 5000 /\
  (0 <= 4106 <= 5000 /\ 4106 <> -3 /\ 4106 <> -5).
Proof.
  assert (H1 : 5000 <= jlong_max) by (vm_compute; discriminate).
  assert (H2 : -3 < 0) by lia.
  assert (H3 : -5 < 0) by lia.
  destruct (skip0_count_range pipe (-3) (-5) 5000 (pipe_world short_pipe) H1 H2 H3)
    as (Ha & Hb & Hc).
  split; [reflexivity|]. split.
  - apply (Ha 1%nat 4096 (second_iteration short_pipe)); [lia|reflexivity].
  - split; [reflexivity|]. split.
    + eapply (Hb 2%nat 4106); [reflexivity|lia|lia].
    + eapply (Hc 1%nat 4096 (second_iteration short_pipe) 4106).
      * lia.
      * reflexivity.
      * reflexivity.
      * left. vm_compute. discriminate.
Defined.

Lemma skip0_nonpositive_witness :
  Java_sun_nio_ch_PipeDispatcherImpl_skip0 pipe (-3) (-5) 0 (pipe_world short_pipe) 0
  = Some (0, pipe_world short_pipe) /\
  issued (pipe_world short_pipe) (pipe_world short_pipe) [].
Proof.
  apply (skip0_nonpositive pipe (-3) (-5) 0 (pipe_world short_pipe) 0). lia.
Defined.

Lemma loop_continues_iff_full_witness :
  loop_body pipe (-3) (-5) 5000 4096 0 (pipe_world short_pipe)
  = Continue 4096 (second_iteration short_pipe) /\
  forall fuel : nat, (1 < fuel)%nat ->
    Java_sun_nio_ch_PipeDispatcherImpl_skip0 pipe (-3) (-5) fuel (pipe_world short_pipe) 5000
    = Some (4106, {| w_fd := [] : fd_state pipe; w_errno := 0; w_pending := None;
                     w_trace := [mkSyscall 4096 4096; mkSyscall 904 10] |}).
Proof.
  assert (Hn : 1 <= 5000 <= jlong_max) by (vm_compute; split; discriminate).
  split.
  - apply (loop_continues_iff_full pipe (-3) (-5) 5000 (pipe_world short_pipe)
             0 0 (pipe_world short_pipe) Hn eq_refl);
      [vm_compute; discriminate|reflexivity].
  - apply (loop_continues_iff_full pipe (-3) (-5) 5000 (pipe_world short_pipe)
             1 4096 (second_iteration short_pipe) Hn eq_refl);
      vm_compute; discriminate.
Defined.

Lemma skip0_exact_multiple_witness :
  exists wm : world pipe,
    loop_iter pipe (-3) (-5) 2 8192 4096 0 (pipe_world (pipe_holding 8192)) = Some (8192, wm) /\
    issued wm (iteration_world (loop_body pipe (-3) (-5) 8192 4096 8192 wm))
      [mkSyscall 0 0] /\
    Java_sun_nio_ch_PipeDispatcherImpl_skip0 pipe (-3) (-5) 3 (pipe_world (pipe_holding 8192)) 8192
    = Some (8192, snd (read wm 0)).
Proof.
  assert (Hn : 1 <= 8192 <= jlong_max) by (vm_compute; split; discriminate).
  destruct (skip0_exact_multiple pipe (-3) (-5) 8192 (pipe_world (pipe_holding 8192)) Hn eq_refl)
    as (wm & l & Hi & _ & _ & Hz & Hr).
  - intros j tn w Hj Hi. change (j < 2)%nat in Hj.
    destruct j as [|[|j]]; [| |lia]; simpl in Hi; injection Hi as <- <-; reflexivity.
  - assert (H0 : fst (read wm 0) = 0).
    { change (loop_iter pipe (-3) (-5) 2 8192 4096 0 (pipe_world (pipe_holding 8192))
              = Some (8192, wm)) in Hi.
      simpl in Hi. injection Hi as <-. reflexivity. }
    exists wm. split; [exact Hi|]. split.
    + rewrite H0 in Hz. exact Hz.
    + apply (Hr H0 3%nat). vm_compute. lia.
Defined.

Lemma skip0_terminates_witness :
  (exists (r : Z) (w' : world pipe) (l : list syscall),
     (forall fuel : nat, (2 <= fuel)%nat ->
        Java_sun_nio_ch_PipeDispatcherImpl_skip0 pipe (-3) (-5) fuel
          (pipe_world short_pipe) 5000 = Some (r, w')) /\
     issued (pipe_world short_pipe) w' l /\ (length l <= 2)%nat) /\
  loop_iter pipe (-3) (-5) 2 5000 4096 0 (pipe_world short_pipe) = None /\
  (4096 = 0 + 4096 /\ 0 <= 5000 - 4096 < 5000 - 0).
Proof.
  assert (Hn : 1 <= 5000 <= jlong_max) by (vm_compute; split; discriminate).
  destruct (skip0_terminates pipe (-3) (-5) 5000 (pipe_world short_pipe) Hn)
    as (Hrun & Hiter & Hdec).
  split; [exact Hrun|]. split; [exact Hiter|].
  apply (Hdec 0%nat 0 (pipe_world short_pipe) 4096 (second_iteration short_pipe));
    reflexivity.
Defined.

(** ** The reads of a call, and the bytes they consume *)

Lemma bytes_read_app (l l' : list syscall) :
  bytes_read (l ++ l') = bytes_read l + bytes_read l'.
Proof. induction l as [|sc l IH]; simpl; [reflexivity|rewrite IH; lia]. Qed.

Lemma bytes_requested_app (l l' : list syscall) :
  bytes_requested (l ++ l') = bytes_requested l + bytes_requested l'.
Proof. induction l as [|sc l IH]; simpl; [reflexivity|rewrite IH; lia]. Qed.

Lemma bytes_full_reads (bs : Z) (j : nat) :
  0 <= bs ->
  bytes_read (repeat (full_read bs) j) = Z.of_nat j * bs /\
  bytes_requested (repeat (full_read bs) j) = Z.of_nat j * bs.
Proof.
  intros Hbs. induction j as [|j [IH1 IH2]]; [split; reflexivity|].
  rewrite Nat2Z.inj_succ. cbn [repeat bytes_read bytes_requested fold_right].
  fold (bytes_read (repeat (full_read bs) j)).
  fold (bytes_requested (repeat (full_read bs) j)).
  rewrite IH1, IH2. simpl. lia.
Qed.

(** The entries of a list of whole-buffer reads followed by one last read,
    with the reads that precede each. *)
Lemma full_reads_nth (bs : Z) (last : syscall) (j : nat) :
  forall (i : nat) (sc : syscall),
  nth_error (repeat (full_read bs) j ++ [last]) i = Some sc ->
  ((i < j)%nat /\ sc = full_read bs \/ i = j /\ sc = last) /\
  firstn i (repeat (full_read bs) j ++ [last]) = repeat (full_read bs) i.
Proof.
  induction j as [|j IH]; intros i sc H.
  - destruct i as [|i]; simpl in H.
    + injection H as <-. split; [right; split; reflexivity|reflexivity].
    + destruct i; discriminate.
  - destruct i as [|i]; simpl in H.
    + injection H as <-. split; [left; split; [lia|reflexivity]|reflexivity].
    + destruct (IH i sc H) as [[[Hlt ->]|[-> ->]] Hf].
      * split; [left; split; [lia|reflexivity]|]. simpl. now rewrite Hf.
      * split; [right; split; reflexivity|]. simpl. now rewrite Hf.
Qed.

Lemma skip0_nonpositive_run (D : descriptor) (i t : Z) (fuel : nat) (w : world D) (n : Z) :
  n < 1 ->
  Java_sun_nio_ch_PipeDispatcherImpl_skip0 D i t fuel w n = Some (0, w) /\ issued w w [].
Proof.
  intros Hn. unfold Java_sun_nio_ch_PipeDispatcherImpl_skip0, issued.
  destruct (Z.ltb_spec n 1); [|lia]. now rewrite app_nil_r.
Qed.

Section Reads.

Variable D : descriptor.
Variables IOS_INTERRUPTED IOS_THROWN : Z.

Local Abbreviation body := (loop_body D IOS_INTERRUPTED IOS_THROWN).
Local Abbreviation iter := (loop_iter D IOS_INTERRUPTED IOS_THROWN).
Local Abbreviation skip0 :=
  (Java_sun_nio_ch_PipeDispatcherImpl_skip0 D IOS_INTERRUPTED IOS_THROWN).

(** Up to the head of iteration [j] the loop has issued [j] reads, each of
    a whole buffer. *)
Lemma iter_trace (j : nat) (n bs : Z) :
  1 <= bs -> n <= jlong_max ->
  forall (tn : Z) (w : world D) (tn' : Z) (w' : world D),
  0 <= tn <= n ->
  iter j n bs tn w = Some (tn', w') ->
  issued w w' (repeat (full_read bs) j).
Proof.
  intros Hbs Hn. induction j as [|j IH]; intros tn w tn' w' Htn H.
  - simpl in H. injection H as _ <-. unfold issued. simpl. now rewrite app_nil_r.
  - simpl in H. destruct (body n bs tn w) as [tn1 w1|r w1] eqn:Hb; [|discriminate].
    destruct (body_continue D IOS_INTERRUPTED IOS_THROWN n bs tn w Hbs Hn Htn _ _ Hb)
      as (Hnr & -> & Hle & ->).
    pose proof (nr_le D n bs tn w Hbs Hn Htn) as Hr.
    pose proof (request_range n bs tn Hbs Hn Htn) as Hq.
    assert (Hreq : request n bs tn = bs) by lia.
    assert (Htn1 : 0 <= tn + bs <= n) by lia.
    pose proof (IH _ _ _ _ Htn1 H) as Hl.
    unfold issued in *. rewrite read_trace, Hnr, Hreq in Hl.
    rewrite Hl, <- app_assoc. reflexivity.
Qed.

(** A call with a count of at least 1: the iteration that returns, and the
    reads issued up to it. *)
Lemma skip0_trace (fuel : nat) (w0 : world D) (n r : Z) (w' : world D) :
  1 <= n <= jlong_max ->
  skip0 fuel w0 n = Some (r, w') ->
  exists (j : nat) (tn : Z) (w : world D),
    (j < fuel)%nat /\
    iter j n (buffer_size n) 0 w0 = Some (tn, w) /\
    tn = Z.of_nat j * buffer_size n /\ 0 <= tn <= n /\
    body n (buffer_size n) tn w = Return r w' /\
    issued w0 w'
      (repeat (full_read (buffer_size n)) j ++
       [mkSyscall (request n (buffer_size n) tn)
          (fst (read w (request n (buffer_size n) tn)))]).
Proof.
  intros [Hge Hn] H. pose proof (buffer_size_pos n Hge) as Hbs.
  destruct (skip0_inv D IOS_INTERRUPTED IOS_THROWN _ _ _ _ _ Hn H)
    as [(Hlt & _)|(_ & j & tn & w & Hj & Hi & Htn & _ & Hb)]; [lia|].
  assert (Hb1 : 1 <= buffer_size n) by lia.
  assert (H0 : 0 <= 0 <= n) by lia.
  destruct (iter_inv D IOS_INTERRUPTED IOS_THROWN j n _ Hb1 Hn 0 w0 tn w H0 Hi)
    as (Heq & _).
  pose proof (iter_trace j n _ Hb1 Hn 0 w0 tn w H0 Hi) as Hl.
  pose proof (body_trace D IOS_INTERRUPTED IOS_THROWN n (buffer_size n) tn w) as Ht.
  rewrite Hb in Ht. simpl in Ht.
  exists j, tn, w. repeat split; try assumption; try lia.
  unfold issued in *. rewrite Ht, Hl, <- app_assoc. reflexivity.
Qed.

(** X1: a value the function returns is a sentinel or is exactly the number
    of bytes its reads took out of the descriptor. *)
Theorem skip0_reports_bytes_read (fuel : nat) (w0 : world D) (n r : Z) (w' : world D) :
  n <= jlong_max ->
  skip0 fuel w0 n = Some (r, w') ->
  exists l : list syscall,
    issued w0 w' l /\
    (r = bytes_read l \/ r = IOS_INTERRUPTED \/ r = IOS_THROWN).
Proof.
  intros Hn H. destruct (Z.lt_ge_cases n 1) as [Hlt|Hge].
  - destruct (skip0_nonpositive_run D IOS_INTERRUPTED IOS_THROWN fuel w0 n Hlt) as [Hr Hi].
    rewrite Hr in H. injection H as <- <-. exists []. split; [exact Hi|left; reflexivity].
  - destruct (skip0_trace _ _ _ _ _ (conj Hge Hn) H)
      as (j & tn & w & _ & _ & Heq & Htn & Hb & Hl).
    pose proof (buffer_size_pos n Hge) as Hbs.
    eexists. split; [exact Hl|].
    destruct (body_return D IOS_INTERRUPTED IOS_THROWN n (buffer_size n) tn w
                ltac:(lia) Hn Htn _ _ Hb)
      as [(Hr & _)|[(Hr & _)|(Hr & _)]]; [left|right; left; exact Hr|right; right; exact Hr].
    rewrite bytes_read_app. destruct (bytes_full_reads (buffer_size n) j ltac:(lia)) as [-> _].
    simpl. lia.
Qed.

(** X2: in a call with a count of at least 1, every [read] but the last
    asked for a whole buffer and got it, the last one did not fill the
    buffer, and there are at most [n / bs] reads before the last. *)
Theorem skip0_reads_shape (fuel : nat) (w0 : world D) (n r : Z) (w' : world D) :
  1 <= n <= jlong_max ->
  skip0 fuel w0 n = Some (r, w') ->
  exists (j : nat) (count nr : Z),
    issued w0 w' (repeat (full_read (buffer_size n)) j ++ [mkSyscall count nr]) /\
    count = Z.min (n - Z.of_nat j * buffer_size n) (buffer_size n) /\
    nr <= count /\ nr <> buffer_size n /\
    Z.of_nat j <= n / buffer_size n.
Proof.
  intros [Hge Hn] H. pose proof (buffer_size_pos n Hge) as Hbs.
  destruct (skip0_trace _ _ _ _ _ (conj Hge Hn) H)
    as (j & tn & w & _ & _ & Heq & Htn & Hb & Hl).
  assert (Hb1 : 1 <= buffer_size n) by lia.
  exists j, (request n (buffer_size n) tn), (fst (read w (request n (buffer_size n) tn))).
  split; [exact Hl|]. split; [|split; [|split]].
  - rewrite (request_min n _ tn Hn Htn), Heq. reflexivity.
  - exact (nr_le D n _ tn w Hb1 Hn Htn).
  - destruct (body_return D IOS_INTERRUPTED IOS_THROWN n (buffer_size n) tn w Hb1 Hn Htn _ _ Hb)
      as [(_ & _ & Hne & _)|[(_ & _ & Hneg & _)|(_ & _ & Hneg & _)]]; [exact Hne|lia|lia].
  - apply Z.div_le_lower_bound; lia.
Qed.

(** X3: when a [read] fails at iteration [j] with an error other than
    [EAGAIN] and [EWOULDBLOCK], the function returns a sentinel although its
    reads have taken [j] whole buffers out of the descriptor: those bytes
    are gone and the caller is not told of them. *)
Theorem skip0_failure_loses_bytes
  (n : Z) (w0 : world D) (j : nat) (tn : Z) (w : world D) (e : Z) (fuel : nat) :
  1 <= n <= jlong_max ->
  iter j n (buffer_size n) 0 w0 = Some (tn, w) ->
  read_fails w (request n (buffer_size n) tn) e ->
  e <> EAGAIN -> e <> EWOULDBLOCK ->
  (j < fuel)%nat ->
  exists (r : Z) (w' : world D) (l : list syscall),
    skip0 fuel w0 n = Some (r, w') /\
    (r = IOS_INTERRUPTED \/ r = IOS_THROWN) /\
    issued w0 w' l /\
    bytes_read l = Z.of_nat j * buffer_size n.
Proof.
  intros [Hge Hn] Hi [Hneg He] Ha Hw Hf. pose proof (buffer_size_pos n Hge) as Hbs.
  assert (Hb1 : 1 <= buffer_size n) by lia.
  assert (H0 : 0 <= 0 <= n) by lia.
  pose proof (iter_trace j n _ Hb1 Hn 0 w0 tn w H0 Hi) as Hl.
  pose proof (body_trace D IOS_INTERRUPTED IOS_THROWN n (buffer_size n) tn w) as Ht.
  assert (Hb : exists (r : Z) (w' : world D),
             body n (buffer_size n) tn w = Return r w' /\
             (r = IOS_INTERRUPTED \/ r = IOS_THROWN)).
  { rewrite loop_body_eq. cbv zeta.
    destruct (Z.ltb_spec (fst (read w (request n (buffer_size n) tn))) 0); [|lia].
    rewrite He.
    destruct (Z.eqb_spec e EAGAIN); [contradiction|].
    destruct (Z.eqb_spec e EWOULDBLOCK); [contradiction|]. simpl.
    destruct (e =? EINTR); eauto. }
  destruct Hb as (r & w' & Hb & Hr). rewrite Hb in Ht. simpl in Ht.
  exists r, w'. eexists. split; [|split; [exact Hr|split]].
  - rewrite skip0_loop by assumption.
    exact (iter_return D IOS_INTERRUPTED IOS_THROWN _ _ _ _ _ _ _ _ _ _ Hi Hb Hf).
  - unfold issued in *. rewrite Ht, Hl, <- app_assoc. reflexivity.
  - rewrite bytes_read_app.
    destruct (bytes_full_reads (buffer_size n) j ltac:(lia)) as [-> _]. simpl. lia.
Qed.

(** X4: whatever the descriptor does, the reads of a call never ask for
    more than the count in total, so they never take more than the count
    out of the descriptor; for a count below 1 they take nothing. *)
Theorem skip0_never_over_reads
  (fuel : nat) (w0 : world D) (n r : Z) (w' : world D) (l : list syscall) :
  n <= jlong_max ->
  skip0 fuel w0 n = Some (r, w') ->
  issued w0 w' l ->
  0 <= bytes_read l <= bytes_requested l /\ bytes_requested l <= Z.max 0 n.
Proof.
  intros Hn H Hl. destruct (Z.lt_ge_cases n 1) as [Hlt|Hge].
  - destruct (skip0_nonpositive_run D IOS_INTERRUPTED IOS_THROWN fuel w0 n Hlt) as [Hr _].
    rewrite Hr in H. injection H as _ <-. unfold issued in Hl.
    rewrite <- (app_nil_r (w_trace w0)) in Hl at 1.
    apply app_inv_head in Hl. subst l. simpl. lia.
  - destruct (skip0_trace _ _ _ _ _ (conj Hge Hn) H)
      as (j & tn & w & _ & _ & Heq & Htn & Hb & Hl').
    pose proof (buffer_size_pos n Hge) as Hbs.
    assert (Hb1 : 1 <= buffer_size n) by lia.
    unfold issued in Hl, Hl'. rewrite Hl in Hl'. apply app_inv_head in Hl'. subst l.
    rewrite bytes_read_app, bytes_requested_app.
    destruct (bytes_full_reads (buffer_size n) j ltac:(lia)) as [-> ->].
    pose proof (nr_le D n _ tn w Hb1 Hn Htn).
    pose proof (request_range n _ tn Hb1 Hn Htn).
    simpl. lia.
Qed.

(** X5: the buffer [buf] has between 1 and 4096 bytes, and every [read]
    of a call asks for a number of bytes between 0 and the size of the
    buffer: the kernel is never let write past the end of [buf], and the
    count is never negative when it is passed on as a [size_t]. *)
Theorem skip0_reads_fit_buffer
  (fuel : nat) (w0 : world D) (n r : Z) (w' : world D) (l : list syscall) :
  1 <= n <= jlong_max ->
  skip0 fuel w0 n = Some (r, w') ->
  issued w0 w' l ->
  1 <= buffer_size n <= MAX_SKIP_BUFFER_SIZE /\
  Forall (fun sc => 0 <= sc_count sc <= buffer_size n /\ sc_ret sc <= sc_count sc) l.
Proof.
  intros [Hge Hn] H Hl. pose proof (buffer_size_pos n Hge) as Hbs.
  split; [rewrite buffer_size_min; unfold MAX_SKIP_BUFFER_SIZE; lia|].
  destruct (skip0_trace _ _ _ _ _ (conj Hge Hn) H)
    as (j & tn & w & _ & _ & Heq & Htn & Hb & Hl').
  assert (Hb1 : 1 <= buffer_size n) by lia.
  unfold issued in Hl, Hl'. rewrite Hl in Hl'. apply app_inv_head in Hl'. subst l.
  apply Forall_app. split.
  - apply Forall_forall. intros sc Hin. apply repeat_spec in Hin. subst sc. simpl. lia.
  - constructor; [|constructor]. simpl.
    pose proof (nr_le D n _ tn w Hb1 Hn Htn).
    pose proof (request_range n _ tn Hb1 Hn Htn). lia.
Qed.

(** X6: at every iteration that is reached the 64-bit arithmetic of the
    loop is exact: [n - tn] does not overflow, and neither does [tn += nr]
    after a [read] that succeeded. *)
Theorem loop_arithmetic_exact (n : Z) (w0 : world D) (j : nat) (tn : Z) (w : world D) :
  1 <= n <= jlong_max ->
  iter j n (buffer_size n) 0 w0 = Some (tn, w) ->
  let nr := fst (read w (request n (buffer_size n) tn)) in
  jlong_sub n tn = n - tn /\
  jlong_min <= n - tn <= jlong_max /\
  (0 <= nr -> jlong_add tn nr = tn + nr /\ jlong_min <= tn + nr <= jlong_max).
Proof.
  intros [Hge Hn] Hi nr. pose proof (buffer_size_pos n Hge) as Hbs.
  assert (Hb1 : 1 <= buffer_size n) by lia.
  assert (H0 : 0 <= 0 <= n) by lia.
  destruct (iter_inv D IOS_INTERRUPTED IOS_THROWN j n _ Hb1 Hn 0 w0 tn w H0 Hi)
    as (Heq & Hle & _).
  assert (Htn : 0 <= tn <= n) by nia.
  pose proof jlong_min_neg as Hmin.
  pose proof (nr_le D n _ tn w Hb1 Hn Htn) as Hnr. fold nr in Hnr.
  pose proof (request_range n _ tn Hb1 Hn Htn) as Hq.
  assert (Hsub : jlong_min <= n - tn <= jlong_max) by lia.
  split; [apply jlong_wrap_id; exact Hsub|]. split; [exact Hsub|].
  intros Hpos. assert (Hadd : jlong_min <= tn + nr <= jlong_max) by lia.
  split; [apply jlong_wrap_id; exact Hadd|exact Hadd].
Qed.

(** C8: the size of the buffer is the smaller of the count and 4096; a
    call with a count of at least 1 returns once the fuel exceeds [n / bs],
    having issued at least one [read]; and each [read] the call issues asks
    for the smaller of what remains of the count, the bytes taken by the
    reads before it deducted, and the size of the buffer.  The same holds of
    the one [read] of every iteration that is reached. *)
Theorem skip0_request_size (n : Z) (w0 : world D) :
  1 <= n <= jlong_max ->
  buffer_size n = Z.min n 4096 /\
  (forall fuel : nat,
     (Z.to_nat (n / buffer_size n) < fuel)%nat ->
     exists (r : Z) (w' : world D) (l : list syscall),
       skip0 fuel w0 n = Some (r, w') /\ issued w0 w' l /\ l <> []) /\
  (forall (fuel : nat) (r : Z) (w' : world D) (l : list syscall),
     skip0 fuel w0 n = Some (r, w') ->
     issued w0 w' l ->
     l <> [] /\
     forall (i : nat) (sc : syscall),
       nth_error l i = Some sc ->
       sc_count sc = Z.min (n - bytes_read (firstn i l)) (Z.min n 4096)) /\
  (forall (j : nat) (tn : Z) (w : world D),
     iter j n (buffer_size n) 0 w0 = Some (tn, w) ->
     exists nr : Z,
       issued w (iteration_world (body n (buffer_size n) tn w))
         [mkSyscall (Z.min (n - tn) (Z.min n 4096)) nr]).
Proof.
  intros [Hge Hn]. pose proof (buffer_size_pos n Hge) as Hbs.
  assert (Hb1 : 1 <= buffer_size n) by lia.
  assert (H0 : 0 <= 0 <= n) by lia.
  split; [apply buffer_size_min|]. split; [|split].
  - intros fuel Hf.
    destruct (loop_total D IOS_INTERRUPTED IOS_THROWN fuel n (buffer_size n) Hb1 Hn 0 w0 H0)
      as (r & w' & Hr).
    { rewrite Z.sub_0_r. exact Hf. }
    rewrite <- skip0_loop in Hr by assumption.
    destruct (skip0_trace _ _ _ _ _ (conj Hge Hn) Hr) as (j & tn & w & _ & _ & _ & _ & _ & Hl).
    exists r, w'. eexists. split; [exact Hr|]. split; [exact Hl|].
    intros Hnil. apply app_eq_nil in Hnil. destruct Hnil as [_ Hnil]. discriminate.
  - intros fuel r w' l H Hl.
    destruct (skip0_trace _ _ _ _ _ (conj Hge Hn) H)
      as (j & tn & w & _ & _ & Heq & Htn & _ & Hl').
    unfold issued in Hl, Hl'. rewrite Hl in Hl'. apply app_inv_head in Hl'. subst l.
    split.
    { intros Hnil. apply app_eq_nil in Hnil. destruct Hnil as [_ Hnil]. discriminate. }
    intros i sc Hnth.
    destruct (full_reads_nth _ _ _ _ _ Hnth) as [Hcase Hfirst].
    rewrite Hfirst. destruct (bytes_full_reads (buffer_size n) i ltac:(lia)) as [-> _].
    rewrite <- buffer_size_min.
    destruct Hcase as [[Hlt ->]|[-> ->]].
    + simpl. assert (Z.of_nat i + 1 <= Z.of_nat j) by lia. nia.
    + simpl. rewrite (request_min n _ tn Hn Htn), Heq. reflexivity.
  - intros j tn w Hi.
    assert (Htn : 0 <= tn <= n).
    { destruct (iter_inv D IOS_INTERRUPTED IOS_THROWN j n (buffer_size n) Hb1 Hn 0 w0 tn w H0 Hi)
        as (Htn & Hle & _).
      nia. }
    eexists. rewrite <- buffer_size_min, <- (request_min n _ tn Hn Htn).
    apply body_trace.
Qed.

End Reads.

(** ** Successive calls on a descriptor whose bytes are all available *)

Section Successive.

Variable D : descriptor.
Variables IOS_INTERRUPTED IOS_THROWN : Z.
Variable avail : fd_state D -> Z.
Variable ready : fd_state D -> Prop.
Hypothesis Hshort : never_short avail ready.

Local Abbreviation skip0 :=
  (Java_sun_nio_ch_PipeDispatcherImpl_skip0 D IOS_INTERRUPTED IOS_THROWN).

(** The loop leaves in the descriptor what it did not skip. *)
Lemma loop_never_short_state (n bs : Z) (fuel : nat) :
  1 <= bs -> n <= jlong_max ->
  forall (tn : Z) (w : world D),
  0 <= tn <= n -> ready (w_fd w) ->
  (Z.to_nat ((n - tn) / bs) < fuel)%nat ->
  exists w' : world D,
    skip_loop D IOS_INTERRUPTED IOS_THROWN fuel n bs tn w
    = Some (tn + Z.min (avail (w_fd w)) (n - tn), w') /\
    ready (w_fd w') /\
    avail (w_fd w') = avail (w_fd w) - Z.min (avail (w_fd w)) (n - tn).
Proof.
  intros Hbs Hn. induction fuel as [|fuel IH]; intros tn w Htn Hw Hf; [lia|].
  pose proof (request_range n bs tn Hbs Hn Htn) as Hreq.
  destruct (Hshort (w_fd w) (request n bs tn) Hw ltac:(lia)) as (Ha & Hnr & Hw1 & Ha1).
  destruct (read_fd D w (request n bs tn)) as [Hfst Hsnd].
  rewrite <- Hfst in Hnr. rewrite <- Hsnd in Hw1, Ha1.
  assert (Hpos : 0 <= fst (read w (request n bs tn))) by lia.
  simpl. rewrite (body_ok D IOS_INTERRUPTED IOS_THROWN n bs tn w Hbs Hn Htn Hpos), Hnr.
  rewrite (request_min n bs tn Hn Htn) in *.
  destruct (Z.eqb_spec (Z.min (Z.min (n - tn) bs) (avail (w_fd w))) bs) as [Heq|Hne].
  - rewrite Heq in *.
    destruct (IH (tn + bs) (snd (read w (Z.min (n - tn) bs)))) as (w' & Hr & Hrd & Hav);
      [lia|assumption| |].
    + replace (n - (tn + bs)) with (n - tn + (-1) * bs) by lia.
      rewrite Z.div_add by lia.
      assert (1 <= (n - tn) / bs) by (apply Z.div_le_lower_bound; lia).
      lia.
    + exists w'. rewrite Hr, Hav, Ha1. split; [|split; [exact Hrd|lia]].
      f_equal. f_equal. lia.
  - eexists. split; [|split; [exact Hw1|rewrite Ha1; lia]]. f_equal. f_equal. lia.
Qed.

(** X7: on a descriptor whose bytes are all available, a call with a count
    of at least 1 takes out of the descriptor exactly the bytes it reports:
    what is left is what was there less the value returned, still all
    available. *)
Theorem skip0_consumes_what_it_reports (n : Z) (fuel : nat) (w0 : world D) :
  1 <= n <= jlong_max ->
  ready (w_fd w0) ->
  (Z.to_nat (n / buffer_size n) < fuel)%nat ->
  exists (r : Z) (w' : world D),
    skip0 fuel w0 n = Some (r, w') /\
    r = Z.min (avail (w_fd w0)) n /\
    ready (w_fd w') /\
    avail (w_fd w') = avail (w_fd w0) - r.
Proof.
  intros [Hge Hn] Hw Hf. pose proof (buffer_size_pos n Hge) as Hbs.
  rewrite skip0_loop by assumption.
  destruct (loop_never_short_state n (buffer_size n) fuel ltac:(lia) Hn 0 w0 ltac:(lia) Hw)
    as (w' & Hr & Hrd & Hav).
  { rewrite Z.sub_0_r. exact Hf. }
  rewrite Z.sub_0_r in Hr, Hav.
  exists (Z.min (avail (w_fd w0)) n), w'. repeat split; assumption.
Qed.

(** X8: on such a descriptor two calls in a row skip together what one call
    with the sum of the counts would: the values returned add up to the
    smaller of the bytes available and the sum of the two counts. *)
Theorem skip0_twice (n1 n2 : Z) (fuel1 fuel2 : nat) (w0 : world D) :
  1 <= n1 <= jlong_max ->
  1 <= n2 <= jlong_max ->
  ready (w_fd w0) ->
  (Z.to_nat (n1 / buffer_size n1) < fuel1)%nat ->
  (Z.to_nat (n2 / buffer_size n2) < fuel2)%nat ->
  exists (r1 r2 : Z) (w1 w2 : world D),
    skip0 fuel1 w0 n1 = Some (r1, w1) /\
    skip0 fuel2 w1 n2 = Some (r2, w2) /\
    r1 + r2 = Z.min (avail (w_fd w0)) (n1 + n2) /\
    avail (w_fd w2) = avail (w_fd w0) - (r1 + r2).
Proof.
  intros [Hge1 Hn1] [Hge2 Hn2] Hw Hf1 Hf2.
  pose proof (buffer_size_pos n1 Hge1) as Hbs1.
  pose proof (buffer_size_pos n2 Hge2) as Hbs2.
  destruct (loop_never_short_state n1 (buffer_size n1) fuel1 ltac:(lia) Hn1 0 w0
              ltac:(lia) Hw) as (w1 & Hr1 & Hrd1 & Hav1).
  { rewrite Z.sub_0_r. exact Hf1. }
  destruct (loop_never_short_state n2 (buffer_size n2) fuel2 ltac:(lia) Hn2 0 w1
              ltac:(lia) Hrd1) as (w2 & Hr2 & Hrd2 & Hav2).
  { rewrite Z.sub_0_r. exact Hf2. }
  rewrite Z.sub_0_r in *.
  exists (Z.min (avail (w_fd w0)) n1), (Z.min (avail (w_fd w1)) n2), w1, w2.
  rewrite !skip0_loop by assumption. rewrite Hr1, Hr2.
  pose proof (proj1 (Hshort (w_fd w0) 0 Hw ltac:(lia))) as Ha0.
  repeat split; lia.
Qed.

End Successive.

(** ** Concrete runs for the accounting and for successive calls *)

Lemma skip0_reports_bytes_read_witness :
  exists l : list syscall,
    issued (pipe_world short_pipe) short_pipe_done l /\
    (4106 = bytes_read l \/ 4106 = -3 \/ 4106 = -5).
Proof.
  apply (skip0_reports_bytes_read pipe (-3) (-5) 2 (pipe_world short_pipe) 5000 4106
           short_pipe_done).
  - vm_compute. discriminate.
  - reflexivity.
Defined.

Lemma skip0_reads_shape_witness :
  exists (j : nat) (count nr : Z),
    issued (pipe_world short_pipe) short_pipe_done
      (repeat (full_read (buffer_size 5000)) j ++ [mkSyscall count nr]) /\
    count = Z.min (5000 - Z.of_nat j * buffer_size 5000) (buffer_size 5000) /\
    nr <= count /\ nr <> buffer_size 5000 /\
    Z.of_nat j <= 5000 / buffer_size 5000.
Proof.
  apply (skip0_reads_shape pipe (-3) (-5) 2 (pipe_world short_pipe) 5000 4106
           short_pipe_done).
  - vm_compute. split; discriminate.
  - reflexivity.
Defined.

Lemma skip0_failure_loses_bytes_witness :
  exists (r : Z) (w' : world pipe) (l : list syscall),
    Java_sun_nio_ch_PipeDispatcherImpl_skip0 pipe (-3) (-5) 2
      (pipe_world (faulty_pipe EINTR)) 5000 = Some (r, w') /\
    (r = -3 \/ r = -5) /\
    issued (pipe_world (faulty_pipe EINTR)) w' l /\
    bytes_read l = Z.of_nat 1 * buffer_size 5000.
Proof.
  apply (skip0_failure_loses_bytes pipe (-3) (-5) 5000 (pipe_world (faulty_pipe EINTR))
           1 4096 (second_iteration (faulty_pipe EINTR)) EINTR 2).
  - vm_compute. split; discriminate.
  - reflexivity.
  - split; [vm_compute; reflexivity|reflexivity].
  - vm_compute. discriminate.
  - vm_compute. discriminate.
  - lia.
Defined.

Lemma skip0_never_over_reads_witness :
  0 <= bytes_read [mkSyscall 4096 4096; mkSyscall 904 10]
    <= bytes_requested [mkSyscall 4096 4096; mkSyscall 904 10] /\
  bytes_requested [mkSyscall 4096 4096; mkSyscall 904 10] <= Z.max 0 5000.
Proof.
  apply (skip0_never_over_reads pipe (-3) (-5) 2 (pipe_world short_pipe) 5000 4106
           short_pipe_done).
  - vm_compute. discriminate.
  - reflexivity.
  - reflexivity.
Defined.

Lemma skip0_reads_fit_buffer_witness :
  1 <= buffer_size 5000 <= MAX_SKIP_BUFFER_SIZE /\
  Forall (fun sc => 0 <= sc_count sc <= buffer_size 5000 /\ sc_ret sc <= sc_count sc)
    [mkSyscall 4096 4096; mkSyscall 904 10].
Proof.
  apply (skip0_reads_fit_buffer pipe (-3) (-5) 2 (pipe_world short_pipe) 5000 4106
           short_pipe_done).
  - vm_compute. split; discriminate.
  - reflexivity.
  - reflexivity.
Defined.

Lemma loop_arithmetic_exact_witness :
  jlong_sub 5000 4096 = 5000 - 4096 /\ jlong_add 4096 10 = 4096 + 10.
Proof.
  assert (Hn : 1 <= 5000 <= jlong_max) by (vm_compute; split; discriminate).
  destruct (loop_arithmetic_exact pipe (-3) (-5) 5000 (pipe_world short_pipe)
              1 4096 (second_iteration short_pipe) Hn eq_refl) as (Hsub & _ & Hadd).
  split; [exact Hsub|].
  apply Hadd. vm_compute. discriminate.
Defined.

Lemma skip0_consumes_what_it_reports_witness :
  exists (r : Z) (w' : world pipe),
    Java_sun_nio_ch_PipeDispatcherImpl_skip0 pipe (-3) (-5) 2
      (pipe_world (pipe_holding 20)) 10 = Some (r, w') /\
    r = Z.min 20 10 /\
    pipe_ready (w_fd w') /\
    pipe_bytes (w_fd w') = 20 - r.
Proof.
  apply (skip0_consumes_what_it_reports pipe (-3) (-5) pipe_bytes pipe_ready
           pipe_never_short 10 2 (pipe_world (pipe_holding 20))).
  - vm_compute. split; discriminate.
  - reflexivity.
  - vm_compute. lia.
Defined.

Lemma skip0_twice_witness :
  exists (r1 r2 : Z) (w1 w2 : world pipe),
    Java_sun_nio_ch_PipeDispatcherImpl_skip0 pipe (-3) (-5) 2
      (pipe_world (pipe_holding 20)) 10 = Some (r1, w1) /\
    Java_sun_nio_ch_PipeDispatcherImpl_skip0 pipe (-3) (-5) 2 w1 5000 = Some (r2, w2) /\
    r1 + r2 = Z.min 20 (10 + 5000) /\
    pipe_bytes (w_fd w2) = 20 - (r1 + r2).
Proof.
  apply (skip0_twice pipe (-3) (-5) pipe_bytes pipe_ready pipe_never_short
           10 5000 2 2 (pipe_world (pipe_holding 20))).
  - vm_compute. split; discriminate.
  - vm_compute. split; discriminate.
  - reflexivity.
  - vm_compute. lia.
  - vm_compute. lia.
Defined.

Lemma skip0_request_size_witness :
  buffer_size 5000 = Z.min 5000 4096 /\
  (exists (r : Z) (w' : world pipe) (l : list syscall),
     Java_sun_nio_ch_PipeDispatcherImpl_skip0 pipe (-3) (-5) 2 (pipe_world short_pipe) 5000
     = Some (r, w') /\
     issued (pipe_world short_pipe) w' l /\ l <> []) /\
  sc_count (mkSyscall 4096 4096)
  = Z.min (5000 - bytes_read (firstn 0 [mkSyscall 4096 4096; mkSyscall 904 10]))
      (Z.min 5000 4096) /\
  sc_count (mkSyscall 904 10)
  = Z.min (5000 - bytes_read (firstn 1 [mkSyscall 4096 4096; mkSyscall 904 10]))
      (Z.min 5000 4096) /\
  exists nr : Z,
    issued (second_iteration short_pipe)
      (iteration_world
         (loop_body pipe (-3) (-5) 5000 (buffer_size 5000) 4096 (second_iteration short_pipe)))
      [mkSyscall (Z.min (5000 - 4096) (Z.min 5000 4096)) nr].
Proof.
  assert (Hn : 1 <= 5000 <= jlong_max) by (vm_compute; split; discriminate).
  destruct (skip0_request_size pipe (-3) (-5) 5000 (pipe_world short_pipe) Hn)
    as (Hbs & Hrun & Hreads & Hreq).
  split; [exact Hbs|]. split.
  - apply (Hrun 2%nat). vm_compute. lia.
  - destruct (Hreads 2%nat 4106 short_pipe_done [mkSyscall 4096 4096; mkSyscall 904 10]
                eq_refl eq_refl) as [_ Hcount].
    split; [exact (Hcount 0%nat _ eq_refl)|].
    split; [exact (Hcount 1%nat _ eq_refl)|].
    apply (Hreq 1%nat 4096 (second_iteration short_pipe)). reflexivity.
Defined.
